(** * Pistols at Dawn duel tracker: the win/loss tally and the duel table

    A shallow embedding of [pages/index.js]: the [HomePage] component keeps
    three pieces of state ([player], [duels], [error]); [searchDuels] updates
    them from the reply of the GraphQL endpoint; the render computes [wins]
    and [losses] for the pie chart and maps every duel to a table row seen
    from the searched player's side. *)

From Stdlib Require Import String Ascii List ZArith NArith Bool Lia.
From Stdlib Require Import Permutation DecimalString.
Import ListNotations.
Open Scope string_scope.

(** ** The JavaScript fragment the page uses *)

Module Js.

(** A field that may hold [null] or [undefined]: both are [None].  The
    page never tells the two apart. *)
Definition nullable (A : Type) : Type := option A.

(** Evaluation either yields a value or throws a [TypeError] (a method
    called on [null] or [undefined]). *)
Inductive result (A : Type) : Type :=
| Ok (a : A)
| TypeError.
Arguments Ok {A} a.
Arguments TypeError {A}.

Definition bind {A B : Type} (m : result A) (k : A -> result B) : result B :=
  match m with
  | Ok a => k a
  | TypeError => TypeError
  end.

(** [v.m(...)]: the receiver must be there before the method runs. *)
Definition receiver {A : Type} (v : nullable A) : result A :=
  match v with
  | Some a => Ok a
  | None => TypeError
  end.

(** [String.prototype.toLowerCase], on strings of ASCII codes: the letters
    [A]-[Z] (65-90) move to [a]-[z], every other code stays. *)
Definition toLowerCaseChar (c : ascii) : ascii :=
  let n := N_of_ascii c in
  if ((65 <=? n) && (n <=? 90))%N then ascii_of_N (n + 32) else c.

Fixpoint toLowerCase (s : string) : string :=
  match s with
  | EmptyString => EmptyString
  | String c s' => String (toLowerCaseChar c) (toLowerCase s')
  end.

(** Truthiness of a nullable string: [null], [undefined] and the empty
    string are falsy. *)
Definition truthy (v : nullable string) : bool :=
  match v with
  | Some (String _ _) => true
  | _ => false
  end.

(** [a || b] *)
Definition orElse (a b : nullable string) : nullable string :=
  if truthy a then a else b.

(** [a && b], where [b] is evaluated only when [a] is truthy and may then
    use the string [a] holds. *)
Definition andThen (a : nullable string) (b : string -> nullable string)
  : nullable string :=
  match a with
  | Some (String c s) => b (String c s)
  | _ => a
  end.

(** [v?.toLowerCase()] *)
Definition optToLowerCase (v : nullable string) : nullable string :=
  option_map toLowerCase v.

(** [a === b] with a string on the right: [undefined] equals no string. *)
Definition strictEq (a : nullable string) (b : string) : bool :=
  match a with
  | Some s => String.eqb s b
  | None => false
  end.

(** [xs.join(sep)] on an array of strings. *)
Definition join (sep : string) (xs : list string) : string :=
  String.concat sep xs.

(** [xs.map(f)] where [f] may throw: the first throw aborts the map. *)
Fixpoint mapM {A B : Type} (f : A -> result B) (xs : list A)
  : result (list B) :=
  match xs with
  | [] => Ok []
  | x :: xs' =>
      bind (f x) (fun y => bind (mapM f xs') (fun ys => Ok (y :: ys)))
  end.

End Js.

Import Js.

Notation "x <- m ;; k" := (Js.bind m (fun x => k))
  (at level 61, m at next level, right associativity).

(** ** The data the endpoint returns (the fields named in [DUELS_QUERY]) *)

Record Player : Type := {
  address : nullable string;
  username : nullable string
}.

(** Step values are kept in the text form [join] gives them. *)
Record Duel : Type := {
  id : string;
  player1 : Player;
  player2 : Player;
  shotStepsP1 : nullable (list string);
  shotStepsP2 : nullable (list string);
  dodgeStepsP1 : nullable (list string);
  dodgeStepsP2 : nullable (list string);
  winner : nullable string
}.

(** ** The win/loss tally (lines 61-62) *)

(** [d => d.winner?.toLowerCase() === player.toLowerCase()] *)
Definition isWin (player : string) (d : Duel) : bool :=
  strictEq (optToLowerCase (winner d)) (toLowerCase player).

Definition wins (duels : list Duel) (player : string) : Z :=
  Z.of_nat (length (filter (isWin player) duels)).

Definition losses (duels : list Duel) (player : string) : Z :=
  Z.of_nat (length duels) - wins duels player.

(** ** One table row (lines 112-133) *)

(** [duel.player1.address.toLowerCase() === player.toLowerCase()] *)
Definition isPlayer1 (duel : Duel) (player : string) : result bool :=
  a <- receiver (address (player1 duel)) ;;
  Ok (String.eqb (toLowerCase a) (toLowerCase player)).

(** The constants the callback computes before it builds the row. *)
Module Projection.
Record t : Type := {
  yourShots : nullable (list string);
  yourDodges : nullable (list string);
  oppShots : nullable (list string);
  oppDodges : nullable (list string);
  opponent : nullable string;
  winner : nullable string
}.
End Projection.

Definition project (duel : Duel) (player : string) : result Projection.t :=
  isPlayer1 <- isPlayer1 duel player ;;
  let yourShots := if isPlayer1 then shotStepsP1 duel else shotStepsP2 duel in
  let yourDodges := if isPlayer1 then dodgeStepsP1 duel else dodgeStepsP2 duel in
  let oppShots := if isPlayer1 then shotStepsP2 duel else shotStepsP1 duel in
  let oppDodges := if isPlayer1 then dodgeStepsP2 duel else dodgeStepsP1 duel in
  let opponent :=
    if isPlayer1
    then orElse (username (player2 duel)) (address (player2 duel))
    else orElse (username (player1 duel)) (address (player1 duel)) in
  let winner :=
    andThen (winner duel)
      (fun w =>
         Some (if String.eqb (toLowerCase w) (toLowerCase player)
               then "You" else "Opponent")) in
  Ok {| Projection.yourShots := yourShots;
        Projection.yourDodges := yourDodges;
        Projection.oppShots := oppShots;
        Projection.oppDodges := oppDodges;
        Projection.opponent := opponent;
        Projection.winner := winner |}.

(** The [<tr>] element: its key and the children of its seven [<td>]s, in
    order.  A [None] child renders nothing. *)
Record Tr : Type := {
  key : string;
  tds : list (nullable string)
}.

(** [xs.join(', ')] on a value that may be missing. *)
Definition joinSteps (xs : nullable (list string)) : result string :=
  a <- receiver xs ;;
  Ok (join ", " a).

Definition render (duel : Duel) (r : Projection.t) : result Tr :=
  ys <- joinSteps (Projection.yourShots r) ;;
  yd <- joinSteps (Projection.yourDodges r) ;;
  os <- joinSteps (Projection.oppShots r) ;;
  od <- joinSteps (Projection.oppDodges r) ;;
  Ok {| key := id duel;
        tds := [Some (id duel); Projection.opponent r; Some ys; Some yd;
                Some os; Some od; Projection.winner r] |}.

(** The whole callback of [duels.map]. *)
Definition tableRow (duel : Duel) (player : string) : result Tr :=
  r <- project duel player ;;
  render duel r.

(** [duels.map(duel => ...)] *)
Definition projectAll (duels : list Duel) (player : string)
  : result (list Tr) :=
  mapM (fun duel => tableRow duel player) duels.

(** ** The component state and [searchDuels] (lines 30-58) *)

Record State : Type := {
  player : string;
  duels : list Duel;
  error : nullable string
}.

Definition initial : State :=
  {| player := ""; duels := []; error := None |}.

Definition setPlayer (p : string) (st : State) : State :=
  {| player := p; duels := duels st; error := error st |}.

Definition setDuels (ds : list Duel) (st : State) : State :=
  {| player := player st; duels := ds; error := error st |}.

Definition setError (e : nullable string) (st : State) : State :=
  {| player := player st; duels := duels st; error := e |}.

(** What the [try] block meets.  [Thrown message]: [fetch] or [res.json()]
    rejected, or reading [json.data.allDuels] threw; [message] is
    [e.message].  [Errors text]: [json.errors] is truthy and [text] is
    [JSON.stringify(json.errors)].  [Data allDuels]: [json.errors] is falsy
    and [json.data.allDuels] is the array given. *)
Inductive Reply : Type :=
| Thrown (message : string)
| Errors (text : string)
| Data (allDuels : list Duel).

(** [searchDuels] up to its first [await]: the old message is cleared. *)
Definition searchDuelsStart (st : State) : State :=
  setError None st.

(** [searchDuels] once the reply is in; [st] is the state at that moment. *)
Definition searchDuelsSettle (reply : Reply) (st : State) : State :=
  match reply with
  | Thrown message => setError (Some ("Request failed: " ++ message)) st
  | Errors text => setError (Some ("GraphQL error: " ++ text)) st
  | Data allDuels => setDuels allDuels st
  end.

(** One search with nothing else happening in between. *)
Definition searchDuels (reply : Reply) (st : State) : State :=
  searchDuelsSettle reply (searchDuelsStart st).

(** ** Sample data *)

Definition anon (a : string) : Player :=
  {| address := Some a; username := None |}.

(** A finished duel between [0xAA] and [0xBB], won by [0xAA]. *)
Definition duelAB : Duel :=
  {| id := "d1";
     player1 := anon "0xAA";
     player2 := anon "0xBB";
     shotStepsP1 := Some ["1"; "2"];
     shotStepsP2 := Some ["3"];
     dodgeStepsP1 := Some ["4"];
     dodgeStepsP2 := Some ["5"; "6"];
     winner := Some "0xAA" |}.

(** The same duel with another winner field. *)
Definition withWinner (w : nullable string) (d : Duel) : Duel :=
  {| id := id d;
     player1 := player1 d;
     player2 := player2 d;
     shotStepsP1 := shotStepsP1 d;
     shotStepsP2 := shotStepsP2 d;
     dodgeStepsP1 := dodgeStepsP1 d;
     dodgeStepsP2 := dodgeStepsP2 d;
     winner := w |}.

(** The same duel with other participants. *)
Definition withPlayers (p1 p2 : Player) (d : Duel) : Duel :=
  {| id := id d;
     player1 := p1;
     player2 := p2;
     shotStepsP1 := shotStepsP1 d;
     shotStepsP2 := shotStepsP2 d;
     dodgeStepsP1 := dodgeStepsP1 d;
     dodgeStepsP2 := dodgeStepsP2 d;
     winner := winner d |}.

(** The same duel with the first player's shot steps missing. *)
Definition withoutShotsP1 (d : Duel) : Duel :=
  {| id := id d;
     player1 := player1 d;
     player2 := player2 d;
     shotStepsP1 := None;
     shotStepsP2 := shotStepsP2 d;
     dodgeStepsP1 := dodgeStepsP1 d;
     dodgeStepsP2 := dodgeStepsP2 d;
     winner := winner d |}.

(** A duel whose first participant has the empty string for address. *)
Definition duelEmptyAddress : Duel :=
  withPlayers (anon "") (anon "0xBB") duelAB.

(** A duel whose winner field is the empty string. *)
Definition duelEmptyWinner : Duel :=
  withWinner (Some "") duelAB.

(** A duel that came without the first player's shot steps. *)
Definition duelNoShots : Duel :=
  withoutShotsP1 duelAB.

(** ** Reading a row by sides *)

(** What the endpoint says about one participant of a duel. *)
Record Side : Type := {
  who : Player;
  shots : nullable (list string);
  dodges : nullable (list string)
}.

Definition sideP1 (duel : Duel) : Side :=
  {| who := player1 duel;
     shots := shotStepsP1 duel;
     dodges := dodgeStepsP1 duel |}.

Definition sideP2 (duel : Duel) : Side :=
  {| who := player2 duel;
     shots := shotStepsP2 duel;
     dodges := dodgeStepsP2 duel |}.

(** The name shown for a participant: the username, else the address. *)
Definition label (p : Player) : nullable string :=
  orElse (username p) (address p).

(** [r] shows [you] on the "your" side and [opp] on the opponent side, with
    nothing taken from the other participant on either side. *)
Definition Shows (r : Projection.t) (you opp : Side) : Prop :=
  Projection.yourShots r = shots you /\
  Projection.yourDodges r = dodges you /\
  Projection.oppShots r = shots opp /\
  Projection.oppDodges r = dodges opp /\
  Projection.opponent r = label (who opp).

(** The address is there and is not the viewpoint, letter case aside. *)
Definition differsFrom (a : nullable string) (viewpoint : string) : Prop :=
  exists s, a = Some s /\ toLowerCase s <> toLowerCase viewpoint.

(** The viewpoint is the address of neither participant. *)
Definition matchesNeither (duel : Duel) (viewpoint : string) : Prop :=
  differsFrom (address (player1 duel)) viewpoint /\
  differsFrom (address (player2 duel)) viewpoint.

(** The record's winner is the viewpoint, letter case aside. *)
Definition WonBy (viewpoint : string) (d : Duel) : Prop :=
  exists w, winner d = Some w /\ toLowerCase w = toLowerCase viewpoint.

(** ** The chart (lines 63-67 and 88-95) *)

Record Slice : Type := {
  name : string;
  value : Z
}.

Definition chartData (duels : list Duel) (player : string) : list Slice :=
  [ {| name := "Wins"; value := wins duels player |};
    {| name := "Losses"; value := losses duels player |} ].

Definition COLORS : list string := ["#0088FE"; "#FF8042"].

(** [COLORS[idx % COLORS.length]]: an index past the end gives
    [undefined]. *)
Definition fill (idx : nat) : nullable string :=
  nth_error COLORS (idx mod length COLORS).

(** The [<Cell>] of one slice. *)
Record Cell : Type := {
  cellKey : string;
  cellFill : nullable string
}.

(** [xs.map((x, idx) => f x idx)], counting from [idx]. *)
Fixpoint mapIndexed {A B : Type} (f : A -> nat -> B) (idx : nat) (xs : list A)
  : list B :=
  match xs with
  | [] => []
  | x :: xs' => f x idx :: mapIndexed f (S idx) xs'
  end.

(** [chartData.map((entry, idx) => <Cell key={`cell-${idx}`} ... />)] *)
Definition cells (data : list Slice) : list Cell :=
  mapIndexed
    (fun _ idx =>
       {| cellKey := "cell-" ++ NilEmpty.string_of_uint (Nat.to_uint idx);
          cellFill := fill idx |})
    0 data.

(** ** The page (lines 69-139) *)

(** What is shown once there are duels: the count of the heading, the pie
    with its cells, and the rows of the table. *)
Record Results : Type := {
  found : Z;
  pie : list Slice;
  pieCells : list Cell;
  rows : list Tr
}.

(** The input's value, the text of the red paragraph if there is one, and
    the results if there are any. *)
Record Page : Type := {
  inputValue : string;
  errorText : nullable string;
  results : nullable Results
}.

(** [error && <p>{error}</p>] *)
Definition errorParagraph (st : State) : nullable string :=
  if truthy (error st) then error st else None.

(** The render of [HomePage] in state [st]. *)
Definition HomePage (st : State) : result Page :=
  let chartData := chartData (duels st) (player st) in
  shown <-
    (if (0 <? length (duels st))%nat
     then trs <- projectAll (duels st) (player st) ;;
          Ok (Some {| found := Z.of_nat (length (duels st));
                      pie := chartData;
                      pieCells := cells chartData;
                      rows := trs |})
     else Ok None) ;;
  Ok {| inputValue := player st;
        errorText := errorParagraph st;
        results := shown |}.

(** ** Several searches *)

(** Searches run one after the other, each to its end. *)
Definition searchAll (replies : list Reply) (st : State) : State :=
  fold_left (fun s reply => searchDuels reply s) replies st.

(** Searches started together whose replies come in one after the other. *)
Definition settleAll (replies : list Reply) (st : State) : State :=
  fold_left (fun s reply => searchDuelsSettle reply s) replies st.

(** The list of the last reply that carries data. *)
Fixpoint lastData (replies : list Reply) : option (list Duel) :=
  match replies with
  | [] => None
  | reply :: rest =>
      match lastData rest, reply with
      | Some ds, _ => Some ds
      | None, Data ds => Some ds
      | None, _ => None
      end
  end.

(** The message of a reply, if it is an error. *)
Definition messageOf (reply : Reply) : option string :=
  match reply with
  | Thrown message => Some ("Request failed: " ++ message)
  | Errors text => Some ("GraphQL error: " ++ text)
  | Data _ => None
  end.

(** The message of the last reply that is an error. *)
Fixpoint lastMessage (replies : list Reply) : option string :=
  match replies with
  | [] => None
  | reply :: rest =>
      match lastMessage rest with
      | Some m => Some m
      | None => messageOf reply
      end
  end.

(** ** Reading the table *)

(** The same duel stored with its two participants in the other order. *)
Definition swapSlots (d : Duel) : Duel :=
  {| id := id d;
     player1 := player2 d;
     player2 := player1 d;
     shotStepsP1 := shotStepsP2 d;
     shotStepsP2 := shotStepsP1 d;
     dodgeStepsP1 := dodgeStepsP2 d;
     dodgeStepsP2 := dodgeStepsP1 d;
     winner := winner d |}.

(** The child of the last [<td>] of a row, the winner column. *)
Definition winnerTd (tr : Tr) : nullable string :=
  nth 6 (tds tr) None.

(** The number of rows whose winner column reads [text]. *)
Definition rowsReading (text : string) (trs : list Tr) : Z :=
  Z.of_nat (length (filter (fun tr => strictEq (winnerTd tr) text) trs)).

(** The row lacks nothing the callback dereferences. *)
Definition Complete (d : Duel) : Prop :=
  address (player1 d) <> None /\
  shotStepsP1 d <> None /\ shotStepsP2 d <> None /\
  dodgeStepsP1 d <> None /\ dodgeStepsP2 d <> None.

(** ** Examples: the scenarios of the specification *)

Example lower_hex : toLowerCase "0xABC" = "0xabc".
Proof. reflexivity. Qed.

Example lower_keeps_blanks : toLowerCase " 0xAbC " = " 0xabc ".
Proof. reflexivity. Qed.

Example scenario1 :
  project duelAB "0xaa"
  = Ok {| Projection.yourShots := Some ["1"; "2"];
          Projection.yourDodges := Some ["4"];
          Projection.oppShots := Some ["3"];
          Projection.oppDodges := Some ["5"; "6"];
          Projection.opponent := Some "0xBB";
          Projection.winner := Some "You" |}.
Proof. reflexivity. Qed.

Example scenario2 :
  project duelAB "0xbb"
  = Ok {| Projection.yourShots := Some ["3"];
          Projection.yourDodges := Some ["5"; "6"];
          Projection.oppShots := Some ["1"; "2"];
          Projection.oppDodges := Some ["4"];
          Projection.opponent := Some "0xAA";
          Projection.winner := Some "Opponent" |}.
Proof. reflexivity. Qed.

Example scenario3 :
  let ds := [duelAB; withWinner (Some "0xBB") duelAB] in
  wins ds "0xaa" = 1%Z /\ losses ds "0xaa" = 1%Z.
Proof. split; reflexivity. Qed.

Example scenario4 :
  let d := withWinner None duelAB in
  (exists r, project d "0xaa" = Ok r /\ Projection.winner r = None) /\
  losses [d] "0xaa" = 1%Z.
Proof. split; [eexists; split; reflexivity | reflexivity]. Qed.

Example scenario5 :
  wins [] "0xaa" = 0%Z /\ losses [] "0xaa" = 0%Z /\ projectAll [] "0xaa" = Ok [].
Proof. repeat split. Qed.

Example row_of_duelAB :
  tableRow duelAB "0xaa"
  = Ok {| key := "d1";
          tds := [Some "d1"; Some "0xBB"; Some "1, 2"; Some "4"; Some "3";
                  Some "5, 6"; Some "You"] |}.
Proof. reflexivity. Qed.

(** ** Lemmas on the JavaScript fragment *)

Lemma toLowerCase_empty (s : string) :
  toLowerCase s = "" <-> s = "".
Proof.
  destruct s as [|c s]; simpl; split; intro H; try reflexivity; discriminate.
Qed.

Lemma toLowerCaseChar_idem (c : ascii) :
  toLowerCaseChar (toLowerCaseChar c) = toLowerCaseChar c.
Proof.
  destruct c as [[] [] [] [] [] [] [] []]; reflexivity.
Qed.

Lemma toLowerCase_idem (s : string) :
  toLowerCase (toLowerCase s) = toLowerCase s.
Proof.
  induction s as [|c s IH]; simpl.
  - reflexivity.
  - now rewrite toLowerCaseChar_idem, IH.
Qed.

Lemma bind_Ok {A B : Type} (m : result A) (k : A -> result B) (b : B) :
  bind m k = Ok b <-> exists a, m = Ok a /\ k a = Ok b.
Proof.
  destruct m as [a|]; simpl.
  - split.
    + intro H. now exists a.
    + intros [a' [E H]]. now inversion E; subst.
  - split; [discriminate | intros [a [E _]]; discriminate].
Qed.

Section MapM.
Context {A B : Type} (f : A -> result B).

Lemma mapM_Ok (xs : list A) (ys : list B) :
  mapM f xs = Ok ys <-> Forall2 (fun x y => f x = Ok y) xs ys.
Proof.
  revert ys. induction xs as [|x xs IH]; intros ys; simpl.
  - split.
    + intro H. inversion H. constructor.
    + intro H. inversion H. reflexivity.
  - rewrite bind_Ok. split.
    + intros [y [Hy H]]. apply bind_Ok in H. destruct H as [ys' [Hys E]].
      inversion E; subst. constructor; [exact Hy | now apply IH].
    + intro H. inversion H as [|x' y xs' ys' Hy Hys]; subst.
      exists y. split; [exact Hy |].
      apply IH in Hys. now rewrite Hys.
Qed.

Lemma mapM_TypeError (xs : list A) :
  mapM f xs = TypeError <-> Exists (fun x => f x = TypeError) xs.
Proof.
  induction xs as [|x xs IH]; simpl.
  - split; [discriminate | intro H; inversion H].
  - destruct (f x) as [y|] eqn:Ex; simpl.
    + destruct (mapM f xs) as [ys|]; simpl.
      * split; [discriminate |].
        intro H. inversion H as [? ? E | ? ? E]; subst.
        -- congruence.
        -- apply IH in E. discriminate.
      * split; [| reflexivity].
        intros _. apply Exists_cons_tl. now apply IH.
    + split; [| reflexivity].
      intros _. now apply Exists_cons_hd.
Qed.

Lemma mapM_app (xs1 xs2 : list A) :
  mapM f (xs1 ++ xs2)%list =
  bind (mapM f xs1) (fun ys1 =>
  bind (mapM f xs2) (fun ys2 => Ok (ys1 ++ ys2)%list)).
Proof.
  induction xs1 as [|x xs1 IH]; simpl.
  - destruct (mapM f xs2); reflexivity.
  - destruct (f x) as [y|]; simpl; [| reflexivity].
    rewrite IH.
    destruct (mapM f xs1) as [ys1|]; simpl; [| reflexivity].
    destruct (mapM f xs2); reflexivity.
Qed.
End MapM.

(** ** Lemmas on one row *)

Lemma project_with_address (duel : Duel) (player a : string) :
  address (player1 duel) = Some a ->
  exists r,
    project duel player = Ok r /\
    (toLowerCase a = toLowerCase player ->
     Shows r (sideP1 duel) (sideP2 duel)) /\
    (toLowerCase a <> toLowerCase player ->
     Shows r (sideP2 duel) (sideP1 duel)) /\
    Projection.winner r =
      andThen (winner duel)
        (fun w => Some (if String.eqb (toLowerCase w) (toLowerCase player)
                        then "You" else "Opponent")).
Proof.
  intro Ha. unfold project, isPlayer1. rewrite Ha. simpl.
  destruct (String.eqb_spec (toLowerCase a) (toLowerCase player)) as [E | N];
    eexists; (split; [reflexivity |]); simpl.
  - split; [| split; [| reflexivity]]; intro H.
    + unfold Shows, label; simpl. repeat split.
    + contradiction.
  - split; [| split; [| reflexivity]]; intro H.
    + contradiction.
    + unfold Shows, label; simpl. rewrite Ha. repeat split.
Qed.

Lemma project_TypeError (duel : Duel) (player : string) :
  project duel player = TypeError <-> address (player1 duel) = None.
Proof.
  unfold project, isPlayer1.
  destruct (address (player1 duel)); simpl; split; intro H;
    first [discriminate | reflexivity].
Qed.

Lemma result_Ok {A : Type} (m : result A) :
  (exists a, m = Ok a) <-> m <> TypeError.
Proof.
  destruct m as [a|]; split.
  - discriminate.
  - intros _. now exists a.
  - intros [a H]. discriminate H.
  - intro H. now contradiction H.
Qed.

Lemma render_TypeError (duel : Duel) (r : Projection.t) :
  render duel r = TypeError <->
  Projection.yourShots r = None \/ Projection.yourDodges r = None \/
  Projection.oppShots r = None \/ Projection.oppDodges r = None.
Proof.
  unfold render, joinSteps.
  destruct (Projection.yourShots r), (Projection.yourDodges r),
           (Projection.oppShots r), (Projection.oppDodges r); simpl;
    (split; intro H;
     [ first [ discriminate H
             | left; reflexivity
             | right; left; reflexivity
             | right; right; left; reflexivity
             | right; right; right; reflexivity ]
     | first [ reflexivity | intuition discriminate ] ]).
Qed.

Lemma tableRow_key (duel : Duel) (player : string) (tr : Tr) :
  tableRow duel player = Ok tr -> key tr = id duel.
Proof.
  unfold tableRow, render. intro H.
  apply bind_Ok in H. destruct H as [r [_ H]].
  repeat (apply bind_Ok in H; destruct H as [? [_ H]]).
  inversion H. reflexivity.
Qed.

(** ** The tally *)

Lemma isWin_WonBy (player : string) (d : Duel) :
  isWin player d = true <-> WonBy player d.
Proof.
  unfold isWin, WonBy, optToLowerCase.
  destruct (winner d) as [w|]; simpl.
  - rewrite String.eqb_eq. split.
    + intro H. now exists w.
    + intros [w' [E H]]. now inversion E; subst.
  - split; [discriminate | intros [w [E _]]; discriminate].
Qed.

Lemma wins_le_length (duels : list Duel) (player : string) :
  (0 <= wins duels player <= Z.of_nat (length duels))%Z.
Proof.
  unfold wins. pose proof (filter_length_le (isWin player) duels). lia.
Qed.

Lemma wins_cons (d : Duel) (duels : list Duel) (player : string) :
  wins (d :: duels) player =
  ((if isWin player d then 1 else 0) + wins duels player)%Z.
Proof.
  unfold wins. simpl. destruct (isWin player d); simpl length; lia.
Qed.

Lemma losses_cons (d : Duel) (duels : list Duel) (player : string) :
  losses (d :: duels) player =
  ((if isWin player d then 0 else 1) + losses duels player)%Z.
Proof.
  unfold losses. rewrite wins_cons. simpl length.
  destruct (isWin player d); lia.
Qed.

(** C1: for every list of duels and every viewpoint, [wins + losses] is the
    number of duels, and neither count is negative: the two counts split the
    whole list. *)
Theorem wins_plus_losses (duels : list Duel) (player : string) :
  (wins duels player + losses duels player = Z.of_nat (length duels) /\
   0 <= wins duels player /\
   0 <= losses duels player)%Z.
Proof.
  pose proof (wins_le_length duels player) as H.
  unfold losses. lia.
Qed.

(** C6: [wins] is the number of duels whose winner is the viewpoint, letter
    case aside; the participants play no part in it (two lists with the same
    winner fields have the same [wins]), so a duel the viewpoint did not
    take part in counts as a win when its winner is the viewpoint; and
    [losses] is the number of all the other duels, those with no winner
    included. *)
Theorem wins_counts_winner_matches (duels : list Duel) (player : string) :
  (forall d, isWin player d = true <-> WonBy player d) /\
  wins duels player = Z.of_nat (length (filter (isWin player) duels)) /\
  losses duels player =
    Z.of_nat (length (filter (fun d => negb (isWin player d)) duels)) /\
  (forall p1 p2,
     wins (map (withPlayers p1 p2) duels) player = wins duels player /\
     losses (map (withPlayers p1 p2) duels) player = losses duels player) /\
  (forall d, winner d = None -> losses [d] player = 1%Z).
Proof.
  split; [intro d; apply isWin_WonBy |].
  split; [reflexivity |].
  split.
  - induction duels as [|d duels IH].
    + reflexivity.
    + rewrite losses_cons, IH. simpl filter.
      destruct (isWin player d); simpl negb; cbv iota; simpl length; lia.
  - split.
    + intros p1 p2. induction duels as [|d duels [IHw IHl]].
      * split; reflexivity.
      * simpl map. rewrite !wins_cons, !losses_cons, IHw, IHl.
        split; reflexivity.
    + intros d Hd. unfold losses, wins, isWin. simpl. rewrite Hd. reflexivity.
Qed.

(** ** The table *)

(** C8: [projectAll] applies the row callback to every duel, in the order of
    the input: it yields the rows [trs] exactly when [trs] lists, duel by
    duel, the row of each; the keys of the rows are the ids of the duels in
    the same order; it throws exactly when some row does; it works through
    a concatenation part by part; and two runs on the same input give the
    same output. *)
Theorem projectAll_in_order (duels : list Duel) (player : string) :
  (forall trs,
     projectAll duels player = Ok trs <->
     Forall2 (fun d tr => tableRow d player = Ok tr) duels trs) /\
  (forall trs,
     projectAll duels player = Ok trs ->
     length trs = length duels /\ map key trs = map id duels) /\
  (projectAll duels player = TypeError <->
   Exists (fun d => tableRow d player = TypeError) duels) /\
  (forall more,
     projectAll (duels ++ more)%list player =
     (trs1 <- projectAll duels player ;;
      trs2 <- projectAll more player ;;
      Ok (trs1 ++ trs2)%list)) /\
  (forall out1 out2,
     projectAll duels player = out1 ->
     projectAll duels player = out2 -> out1 = out2).
Proof.
  unfold projectAll.
  split; [intro trs; apply mapM_Ok |].
  split.
  - intros trs H. apply mapM_Ok in H.
    induction H as [|d tr ds trs Hd _ [IHl IHk]].
    + split; reflexivity.
    + simpl. apply tableRow_key in Hd. split; congruence.
  - split; [apply mapM_TypeError |].
    split; [intro more; apply mapM_app |].
    intros out1 out2 H1 H2. congruence.
Qed.

(** ** The search *)

(** C9: when the search meets an error (an exception of the fetch, or an
    error payload in the reply), it ends with the error message set and with
    the duels the state held, whatever that state was when the reply came
    in; the duels are replaced, all at once, by the reply's list only when
    the reply carries data, and then the message the search cleared at its
    start stays cleared.  The searched player never changes. *)
Theorem searchDuels_error_keeps_duels (reply : Reply) (st : State) :
  player (searchDuelsSettle reply st) = player st /\
  match reply with
  | Thrown message =>
      duels (searchDuelsSettle reply st) = duels st /\
      error (searchDuelsSettle reply st)
      = Some ("Request failed: " ++ message) /\
      duels (searchDuels reply st) = duels st /\
      error (searchDuels reply st) = Some ("Request failed: " ++ message)
  | Errors text =>
      duels (searchDuelsSettle reply st) = duels st /\
      error (searchDuelsSettle reply st)
      = Some ("GraphQL error: " ++ text) /\
      duels (searchDuels reply st) = duels st /\
      error (searchDuels reply st) = Some ("GraphQL error: " ++ text)
  | Data allDuels =>
      duels (searchDuelsSettle reply st) = allDuels /\
      error (searchDuelsSettle reply st) = error st /\
      duels (searchDuels reply st) = allDuels /\
      error (searchDuels reply st) = None
  end.
Proof.
  destruct reply as [message | text | allDuels];
    unfold searchDuels, searchDuelsStart; simpl; repeat split.
Qed.

(** ** The side a row is seen from *)

Example no_trimming : isPlayer1 duelAB "0xaa " = Ok false.
Proof. reflexivity. Qed.

Lemma isPlayer1_lowered (duel : Duel) (v : string) :
  isPlayer1 duel (toLowerCase v) = isPlayer1 duel v.
Proof.
  unfold isPlayer1. now rewrite toLowerCase_idem.
Qed.

(** C7: two viewpoints that are equal once lowercased give the same answer
    to the first-participant test, and the same row constants, on every
    duel; the test succeeds exactly when the lowercased address of the first
    participant is the lowercased viewpoint, character for character. *)
Theorem isPlayer1_case_invariant (duel : Duel) (v1 v2 : string) :
  toLowerCase v1 = toLowerCase v2 ->
  isPlayer1 duel v1 = isPlayer1 duel v2 /\
  project duel v1 = project duel v2 /\
  (isPlayer1 duel v1 = Ok true <->
   exists a, address (player1 duel) = Some a /\
             toLowerCase a = toLowerCase v2).
Proof.
  intro E. unfold project, isPlayer1. rewrite E.
  split; [reflexivity |]. split; [reflexivity |].
  destruct (address (player1 duel)) as [a|]; simpl.
  - split.
    + intro H. inversion H as [H']. apply String.eqb_eq in H'. now exists a.
    + intros [a' [Ha H]]. inversion Ha; subst.
      apply String.eqb_eq in H. now rewrite H.
  - split; [discriminate | intros [a [Ha _]]; discriminate].
Qed.

Lemma isPlayer1_case_invariant_witness :
  toLowerCase "0xABC" = toLowerCase "0xabc" /\
  isPlayer1 (withPlayers (anon "0xabc") (anon "0xBB") duelAB) "0xABC"
  = isPlayer1 (withPlayers (anon "0xabc") (anon "0xBB") duelAB) "0xabc".
Proof.
  split; [reflexivity |].
  exact (proj1 (isPlayer1_case_invariant
                  (withPlayers (anon "0xabc") (anon "0xBB") duelAB)
                  "0xABC" "0xabc" eq_refl)).
Defined.

(** C4, as stated, fails: with the empty string for viewpoint the
    first-participant test succeeds on a duel whose first participant has
    the empty string for address, and the row is built from that
    participant's side. *)
Lemma empty_viewpoint_matches_empty_address :
  address (player1 duelEmptyAddress) = Some "" /\
  isPlayer1 duelEmptyAddress "" = Ok true /\
  exists r, project duelEmptyAddress "" = Ok r /\
            Shows r (sideP1 duelEmptyAddress) (sideP2 duelEmptyAddress).
Proof.
  split; [reflexivity |]. split; [reflexivity |].
  eexists. split; [reflexivity |]. repeat split.
Qed.

(** C4, amended: the empty viewpoint does not pass the first-participant
    test when that participant's address is a non-empty string; it passes
    when the address is the empty string; and the test throws when the
    address is missing. *)
Theorem isPlayer1_empty_viewpoint (duel : Duel) :
  (forall a, address (player1 duel) = Some a -> a <> "" ->
             isPlayer1 duel "" = Ok false) /\
  (address (player1 duel) = Some "" -> isPlayer1 duel "" = Ok true) /\
  (address (player1 duel) = None -> isPlayer1 duel "" = TypeError).
Proof.
  unfold isPlayer1. repeat split.
  - intros a Ha Hne. rewrite Ha. simpl.
    destruct (String.eqb_spec (toLowerCase a) "") as [E | N].
    + apply (proj1 (toLowerCase_empty a)) in E. contradiction.
    + reflexivity.
  - intro Ha. now rewrite Ha.
  - intro Ha. now rewrite Ha.
Qed.

(** C2, as stated, fails: for a viewpoint that is neither participant the
    row does not take "your" steps from the first participant. *)
Lemma nonparticipant_not_seen_from_first_slot :
  matchesNeither duelAB "0xcc" /\
  exists r, project duelAB "0xcc" = Ok r /\
            Projection.yourShots r <> shotStepsP1 duelAB /\
            ~ Shows r (sideP1 duelAB) (sideP2 duelAB).
Proof.
  split.
  - split; eexists; (split; [reflexivity | discriminate]).
  - eexists. split; [reflexivity |]. split.
    + discriminate.
    + intros [H _]. discriminate H.
Qed.

(** C2, amended: for a viewpoint that is the address of neither participant
    the row is still built, and from the second participant's side: "your"
    steps are the second participant's, the opponent's steps and name are
    the first participant's, as they are when the viewpoint is the second
    participant's address (the two addresses being different). *)
Theorem nonparticipant_seen_from_second_slot (duel : Duel) (viewpoint : string) :
  matchesNeither duel viewpoint ->
  exists r,
    project duel viewpoint = Ok r /\
    Shows r (sideP2 duel) (sideP1 duel) /\
    (forall b,
       address (player2 duel) = Some b ->
       differsFrom (address (player1 duel)) b ->
       exists r', project duel b = Ok r' /\
                  Shows r' (sideP2 duel) (sideP1 duel)).
Proof.
  intros [[a [Ha Na]] _].
  destruct (project_with_address duel viewpoint a Ha) as [r [Hr [_ [H2 _]]]].
  exists r. split; [exact Hr |]. split; [now apply H2 |].
  intros b _ [a' [Ha' Nb]].
  assert (a' = a) by congruence. subst a'.
  destruct (project_with_address duel b a Ha) as [r' [Hr' [_ [H2' _]]]].
  exists r'. split; [exact Hr' | now apply H2'].
Qed.

Lemma nonparticipant_seen_from_second_slot_witness :
  matchesNeither duelAB "0xcc" /\
  exists r, project duelAB "0xcc" = Ok r /\
            Shows r (sideP2 duelAB) (sideP1 duelAB).
Proof.
  assert (M : matchesNeither duelAB "0xcc").
  { split; eexists; (split; [reflexivity | discriminate]). }
  split; [exact M |].
  destruct (nonparticipant_seen_from_second_slot duelAB "0xcc" M)
    as [r [Hr [Hs _]]].
  exists r. split; assumption.
Defined.

(** C10: every row is built wholly from one side: either the first
    participant is "you" and the second the opponent, or the other way
    round, for all four step sequences and the opponent's name at once; the
    first participant is "you" when the lowercased viewpoint is that
    participant's lowercased address, and in every other case, that of a
    viewpoint that is neither participant included, the second participant
    is.  Only a missing address of the first participant leaves no row. *)
Theorem project_never_mixes (duel : Duel) (player : string) :
  match address (player1 duel) with
  | None => project duel player = TypeError
  | Some a =>
      exists r,
        project duel player = Ok r /\
        (Shows r (sideP1 duel) (sideP2 duel) \/
         Shows r (sideP2 duel) (sideP1 duel)) /\
        (toLowerCase a = toLowerCase player ->
         Shows r (sideP1 duel) (sideP2 duel)) /\
        (toLowerCase a <> toLowerCase player ->
         Shows r (sideP2 duel) (sideP1 duel))
  end.
Proof.
  destruct (address (player1 duel)) as [a|] eqn:Ha.
  - destruct (project_with_address duel player a Ha) as [r [Hr [H1 [H2 _]]]].
    exists r. split; [exact Hr |]. split; [| split; assumption].
    destruct (String.eqb_spec (toLowerCase a) (toLowerCase player)) as [E | N];
      [left; now apply H1 | right; now apply H2].
  - now apply project_TypeError.
Qed.

(** ** The winner cell *)

(** C5, as stated, fails: a winner field that is there but holds the empty
    string gives neither "You" nor "Opponent": the cell is the empty string
    itself, for a viewpoint that equals it and for one that does not. *)
Lemma empty_winner_names_nobody :
  winner duelEmptyWinner = Some "" /\
  (exists r, project duelEmptyWinner "" = Ok r /\
             toLowerCase "" = toLowerCase "" /\
             Projection.winner r = Some "" /\
             Projection.winner r <> Some "You") /\
  (exists r, project duelEmptyWinner "0xaa" = Ok r /\
             toLowerCase "" <> toLowerCase "0xaa" /\
             Projection.winner r = Some "" /\
             Projection.winner r <> Some "Opponent").
Proof.
  split; [reflexivity |].
  split; eexists; (split; [reflexivity |]); repeat split; discriminate.
Qed.

(** C5, amended: the winner cell is empty when the winner field is missing
    or holds the empty string; for any other winner it is "You" exactly when
    the lowercased winner is the lowercased viewpoint and "Opponent"
    otherwise.  The participants play no part in it: the same duel with any
    other two participants has the same winner cell. *)
Theorem outcome_from_winner_field (duel : Duel) (player : string) :
  match address (player1 duel) with
  | None => project duel player = TypeError
  | Some _ =>
      exists r,
        project duel player = Ok r /\
        (winner duel = None -> Projection.winner r = None) /\
        (winner duel = Some "" -> Projection.winner r = Some "") /\
        (forall w,
           winner duel = Some w -> w <> "" ->
           (toLowerCase w = toLowerCase player ->
            Projection.winner r = Some "You") /\
           (toLowerCase w <> toLowerCase player ->
            Projection.winner r = Some "Opponent")) /\
        (forall p1 p2 a,
           address p1 = Some a ->
           exists r', project (withPlayers p1 p2 duel) player = Ok r' /\
                      Projection.winner r' = Projection.winner r)
  end.
Proof.
  destruct (address (player1 duel)) as [a|] eqn:Ha.
  - destruct (project_with_address duel player a Ha) as [r [Hr [_ [_ Hw]]]].
    exists r. split; [exact Hr |]. rewrite Hw.
    split; [intro E; now rewrite E |].
    split; [intro E; now rewrite E |].
    split.
    + intros w E Hne. rewrite E.
      destruct w as [|c w]; [contradiction |]. unfold andThen.
      destruct (String.eqb_spec (toLowerCase (String c w))
                                (toLowerCase player)) as [E' | N'];
        split; intro H; first [reflexivity | contradiction].
    + intros p1 p2 a' Ha'.
      destruct (project_with_address (withPlayers p1 p2 duel) player a' Ha')
        as [r' [Hr' [_ [_ Hw']]]].
      exists r'. split; [exact Hr' | exact Hw'].
  - now apply project_TypeError.
Qed.

(** ** Missing step sequences *)

(** C3, as stated, fails: a duel that came without the first player's shot
    steps gives no row; joining the missing sequence throws. *)
Lemma missing_steps_throw :
  shotStepsP1 duelNoShots = None /\
  joinSteps (shotStepsP1 duelNoShots) = TypeError /\
  tableRow duelNoShots "0xaa" = TypeError /\
  tableRow duelNoShots "0xbb" = TypeError.
Proof. repeat split. Qed.

(** C3, amended: the row callback throws exactly when the first
    participant's address or one of the four step sequences is missing; with
    all five there it yields the row.  A missing sequence is not joined as an
    empty one: the empty sequence joins to the empty string, the missing one
    throws. *)
Theorem tableRow_throws_iff_missing (duel : Duel) (player : string) :
  (tableRow duel player = TypeError <->
   address (player1 duel) = None \/
   shotStepsP1 duel = None \/ shotStepsP2 duel = None \/
   dodgeStepsP1 duel = None \/ dodgeStepsP2 duel = None) /\
  ((exists tr, tableRow duel player = Ok tr) <->
   address (player1 duel) <> None /\
   shotStepsP1 duel <> None /\ shotStepsP2 duel <> None /\
   dodgeStepsP1 duel <> None /\ dodgeStepsP2 duel <> None) /\
  joinSteps (Some []) = Ok "" /\
  joinSteps None = TypeError.
Proof.
  assert (Throws :
    tableRow duel player = TypeError <->
    address (player1 duel) = None \/
    shotStepsP1 duel = None \/ shotStepsP2 duel = None \/
    dodgeStepsP1 duel = None \/ dodgeStepsP2 duel = None).
  { unfold tableRow.
    destruct (address (player1 duel)) as [a|] eqn:Ha.
    - destruct (project_with_address duel player a Ha)
        as [r [Hr [H1 [H2 _]]]].
      rewrite Hr. simpl bind. rewrite render_TypeError.
      destruct (String.eqb_spec (toLowerCase a) (toLowerCase player))
        as [E | N].
      + destruct (H1 E) as [-> [-> [-> [-> _]]]]. simpl.
        intuition discriminate.
      + destruct (H2 N) as [-> [-> [-> [-> _]]]]. simpl.
        intuition discriminate.
    - rewrite (proj2 (project_TypeError duel player) Ha). simpl. tauto. }
  split; [exact Throws |].
  split; [| split; reflexivity].
  rewrite result_Ok, Throws. tauto.
Qed.

(** ** More on the tally *)

Lemma wins_app (ds1 ds2 : list Duel) (player : string) :
  wins (ds1 ++ ds2)%list player = (wins ds1 player + wins ds2 player)%Z.
Proof.
  unfold wins. rewrite filter_app, length_app. lia.
Qed.

Lemma losses_app (ds1 ds2 : list Duel) (player : string) :
  losses (ds1 ++ ds2)%list player
  = (losses ds1 player + losses ds2 player)%Z.
Proof.
  unfold losses. rewrite wins_app, length_app. lia.
Qed.

Lemma isWin_lowered (v1 v2 : string) (d : Duel) :
  toLowerCase v1 = toLowerCase v2 -> isWin v1 d = isWin v2 d.
Proof.
  intro E. unfold isWin. now rewrite E.
Qed.

(** X1: the tally of two lists put end to end is the sum of their tallies,
    for wins and for losses alike. *)
Theorem tally_of_concatenation (ds1 ds2 : list Duel) (player : string) :
  wins (ds1 ++ ds2)%list player = (wins ds1 player + wins ds2 player)%Z /\
  losses (ds1 ++ ds2)%list player
  = (losses ds1 player + losses ds2 player)%Z.
Proof.
  split; [apply wins_app | apply losses_app].
Qed.

(** X2: the tally does not depend on the order the endpoint lists the duels
    in. *)
Theorem tally_of_permutation (ds ds' : list Duel) (player : string) :
  Permutation ds ds' ->
  wins ds player = wins ds' player /\ losses ds player = losses ds' player.
Proof.
  intro P. induction P as [| d l l' _ [IHw IHl] | d d' l | l l' l'' _ [? ?] _ [? ?]].
  - split; reflexivity.
  - rewrite !wins_cons, !losses_cons, IHw, IHl. split; reflexivity.
  - rewrite !wins_cons, !losses_cons. split; lia.
  - split; congruence.
Qed.

Lemma tally_of_permutation_witness :
  Permutation [duelAB; duelEmptyWinner] [duelEmptyWinner; duelAB] /\
  wins [duelAB; duelEmptyWinner] "0xaa"
  = wins [duelEmptyWinner; duelAB] "0xaa".
Proof.
  split; [apply perm_swap |].
  exact (proj1 (tally_of_permutation
                  [duelAB; duelEmptyWinner] [duelEmptyWinner; duelAB] "0xaa"
                  (perm_swap _ _ _))).
Defined.

(** X3: there are no losses exactly when every duel was won by the
    viewpoint, and no wins exactly when none was; in each case the other
    count is the number of duels. *)
Theorem one_sided_tally (duels : list Duel) (player : string) :
  (losses duels player = 0%Z <-> Forall (WonBy player) duels) /\
  (wins duels player = 0%Z <->
   Forall (fun d => ~ WonBy player d) duels) /\
  (losses duels player = 0%Z ->
   wins duels player = Z.of_nat (length duels)) /\
  (wins duels player = 0%Z ->
   losses duels player = Z.of_nat (length duels)).
Proof.
  split; [| split; [| split; unfold losses; lia]].
  - induction duels as [|d duels IH].
    + split; [constructor | reflexivity].
    + rewrite losses_cons.
      pose proof (wins_le_length duels player) as B.
      assert (L : (0 <= losses duels player)%Z) by (unfold losses; lia).
      destruct (isWin player d) eqn:W.
      * split.
        -- intro H. constructor; [now apply isWin_WonBy | apply IH; lia].
        -- intro H. inversion H; subst.
           assert (losses duels player = 0%Z) by now apply IH. lia.
      * split; [lia |].
        intro H. inversion H as [|? ? Hd _]; subst.
        apply isWin_WonBy in Hd. congruence.
  - induction duels as [|d duels IH].
    + split; [constructor | reflexivity].
    + rewrite wins_cons.
      pose proof (wins_le_length duels player) as B.
      destruct (isWin player d) eqn:W.
      * split; [lia |].
        intro H. inversion H as [|? ? Hd _]; subst.
        exfalso. apply Hd. now apply isWin_WonBy.
      * split.
        -- intro H. constructor.
           ++ intro Hd. apply isWin_WonBy in Hd. congruence.
           ++ apply IH. lia.
        -- intro H. inversion H; subst.
           assert (wins duels player = 0%Z) by now apply IH. lia.
Qed.

(** ** More on the rows *)

Lemma tableRow_inv (d : Duel) (player : string) (tr : Tr) :
  tableRow d player = Ok tr ->
  exists r ys yd os od,
    project d player = Ok r /\
    joinSteps (Projection.yourShots r) = Ok ys /\
    joinSteps (Projection.yourDodges r) = Ok yd /\
    joinSteps (Projection.oppShots r) = Ok os /\
    joinSteps (Projection.oppDodges r) = Ok od /\
    tr = {| key := id d;
            tds := [Some (id d); Projection.opponent r; Some ys; Some yd;
                    Some os; Some od; Projection.winner r] |}.
Proof.
  unfold tableRow, render. intro H.
  apply bind_Ok in H. destruct H as [r [Hr H]].
  apply bind_Ok in H. destruct H as [ys [Hys H]].
  apply bind_Ok in H. destruct H as [yd [Hyd H]].
  apply bind_Ok in H. destruct H as [os [Hos H]].
  apply bind_Ok in H. destruct H as [od [Hod H]].
  inversion H. subst tr.
  exists r, ys, yd, os, od. repeat split; assumption.
Qed.

Lemma project_inv (d : Duel) (player : string) (r : Projection.t) :
  project d player = Ok r ->
  exists a, address (player1 d) = Some a.
Proof.
  intro H. destruct (address (player1 d)) as [a|] eqn:Ha.
  - now exists a.
  - rewrite (proj2 (project_TypeError d player) Ha) in H. discriminate H.
Qed.

Lemma tableRow_winnerTd (d : Duel) (player : string) (tr : Tr) :
  tableRow d player = Ok tr ->
  winnerTd tr =
    andThen (winner d)
      (fun w => Some (if String.eqb (toLowerCase w) (toLowerCase player)
                      then "You" else "Opponent")).
Proof.
  intro H. apply tableRow_inv in H.
  destruct H as [r [ys [yd [os [od [Hr [_ [_ [_ [_ ->]]]]]]]]]].
  destruct (project_inv d player r Hr) as [a Ha].
  destruct (project_with_address d player a Ha) as [r' [Hr' [_ [_ Hw]]]].
  assert (r' = r) by congruence. subst r'. exact Hw.
Qed.

Lemma row_vs_isWin (d : Duel) (player : string) (tr : Tr) :
  tableRow d player = Ok tr ->
  (strictEq (winnerTd tr) "You" = true -> isWin player d = true) /\
  (strictEq (winnerTd tr) "Opponent" = true -> isWin player d = false) /\
  (truthy (winner d) = true ->
   strictEq (winnerTd tr) "You" = isWin player d /\
   strictEq (winnerTd tr) "Opponent" = negb (isWin player d)) /\
  (player <> "" -> isWin player d = true -> truthy (winner d) = true).
Proof.
  intro H. rewrite (tableRow_winnerTd d player tr H).
  unfold isWin, optToLowerCase, andThen, truthy, option_map.
  destruct (winner d) as [[|c w]|].
  - split; [discriminate |]. split; [discriminate |].
    split; [discriminate |].
    intros Hp E. exfalso. apply Hp.
    destruct player as [|c p]; [reflexivity | discriminate E].
  - change (strictEq (Some (toLowerCase (String c w))) (toLowerCase player))
      with (String.eqb (toLowerCase (String c w)) (toLowerCase player)).
    destruct (String.eqb (toLowerCase (String c w)) (toLowerCase player)).
    + split; [reflexivity |]. split; [discriminate |].
      split; [intros _; split |]; reflexivity.
    + split; [discriminate |]. split; [reflexivity |].
      split; [intros _; split; reflexivity | discriminate].
  - split; [discriminate |]. split; [discriminate |].
    split; discriminate.
Qed.

Lemma rowsReading_cons (text : string) (tr : Tr) (trs : list Tr) :
  rowsReading text (tr :: trs) =
  ((if strictEq (winnerTd tr) text then 1 else 0) + rowsReading text trs)%Z.
Proof.
  unfold rowsReading. simpl filter.
  destruct (strictEq (winnerTd tr) text); simpl length; lia.
Qed.

(** X4: the table and the tally agree.  The rows that read "You" are never
    more than [wins] and the rows that read "Opponent" never more than
    [losses]; with a non-empty viewpoint the rows that read "You" are
    exactly [wins]; and when every duel has a non-empty winner the rows that
    read "Opponent" are exactly [losses] too. *)
Theorem table_agrees_with_tally
  (duels : list Duel) (player : string) (trs : list Tr) :
  projectAll duels player = Ok trs ->
  (rowsReading "You" trs <= wins duels player)%Z /\
  (rowsReading "Opponent" trs <= losses duels player)%Z /\
  (player <> "" -> rowsReading "You" trs = wins duels player) /\
  (Forall (fun d => truthy (winner d) = true) duels ->
   rowsReading "You" trs = wins duels player /\
   rowsReading "Opponent" trs = losses duels player).
Proof.
  unfold projectAll. intro H. apply mapM_Ok in H.
  induction H as [|d tr ds trs Hd _ [IHy [IHo [IHp IHt]]]].
  - repeat split; reflexivity.
  - rewrite !rowsReading_cons, wins_cons, losses_cons.
    destruct (row_vs_isWin d player tr Hd) as [Y [O [T P]]].
    split; [| split; [| split]].
    + destruct (strictEq (winnerTd tr) "You").
      * rewrite (Y eq_refl). lia.
      * destruct (isWin player d); lia.
    + destruct (strictEq (winnerTd tr) "Opponent").
      * rewrite (O eq_refl). lia.
      * destruct (isWin player d); lia.
    + intro Hp. rewrite (IHp Hp).
      destruct (isWin player d) eqn:W.
      * destruct (T (P Hp eq_refl)) as [-> _]. reflexivity.
      * destruct (strictEq (winnerTd tr) "You");
          [discriminate (Y eq_refl) | reflexivity].
    + intro F. inversion F as [|? ? Fd Fds]; subst.
      destruct (IHt Fds) as [-> ->].
      destruct (T Fd) as [-> ->].
      destruct (isWin player d); split; reflexivity.
Qed.

Lemma table_agrees_with_tally_witness :
  projectAll [duelAB; duelEmptyWinner] "0xaa"
  = Ok [ {| key := "d1";
            tds := [Some "d1"; Some "0xBB"; Some "1, 2"; Some "4";
                    Some "3"; Some "5, 6"; Some "You"] |};
         {| key := "d1";
            tds := [Some "d1"; Some "0xBB"; Some "1, 2"; Some "4";
                    Some "3"; Some "5, 6"; Some ""] |} ] /\
  wins [duelAB; duelEmptyWinner] "0xaa" = 1%Z.
Proof.
  split; [reflexivity |].
  pose proof (table_agrees_with_tally
                [duelAB; duelEmptyWinner] "0xaa" _ eq_refl) as [_ [_ [H _]]].
  rewrite <- H; [reflexivity | discriminate].
Defined.

(** X5: a participant sees the same row whichever slot the endpoint stored
    them in: when the viewpoint is the address of exactly one of the two
    participants, the duel with its two participants (and their steps)
    exchanged gives the same row. *)
Theorem slot_order_is_invisible (d : Duel) (v a b : string) :
  address (player1 d) = Some a ->
  address (player2 d) = Some b ->
  (toLowerCase a = toLowerCase v /\ toLowerCase b <> toLowerCase v) \/
  (toLowerCase a <> toLowerCase v /\ toLowerCase b = toLowerCase v) ->
  project (swapSlots d) v = project d v /\
  tableRow (swapSlots d) v = tableRow d v.
Proof.
  intros Ha Hb H.
  assert (P : project (swapSlots d) v = project d v).
  { unfold project, isPlayer1, swapSlots. simpl. rewrite Ha, Hb. simpl.
    destruct H as [[E N] | [N E]].
    - rewrite (proj2 (String.eqb_eq _ _) E), (proj2 (String.eqb_neq _ _) N).
      reflexivity.
    - rewrite (proj2 (String.eqb_eq _ _) E), (proj2 (String.eqb_neq _ _) N).
      reflexivity. }
  split; [exact P |].
  unfold tableRow. rewrite P. reflexivity.
Qed.

Lemma slot_order_is_invisible_witness :
  tableRow (swapSlots duelAB) "0xbb" = tableRow duelAB "0xbb".
Proof.
  refine (proj2 (slot_order_is_invisible duelAB "0xbb" "0xAA" "0xBB"
                   eq_refl eq_refl _)).
  right. split; [discriminate | reflexivity].
Defined.

(** X6: the two participants of a duel, their addresses being different,
    see mirror images: what is "yours" in the one row is the opponent's in
    the other, each row names the other participant, and a non-empty winner
    that is one of the two reads "You" in that one's row and "Opponent" in
    the other's. *)
Theorem participants_see_mirror_rows (d : Duel) (a b : string) :
  address (player1 d) = Some a ->
  address (player2 d) = Some b ->
  toLowerCase a <> toLowerCase b ->
  exists ra rb,
    project d a = Ok ra /\ project d b = Ok rb /\
    Projection.yourShots rb = Projection.oppShots ra /\
    Projection.yourDodges rb = Projection.oppDodges ra /\
    Projection.oppShots rb = Projection.yourShots ra /\
    Projection.oppDodges rb = Projection.yourDodges ra /\
    Projection.opponent ra = label (player2 d) /\
    Projection.opponent rb = label (player1 d) /\
    (forall w,
       winner d = Some w -> w <> "" ->
       (toLowerCase w = toLowerCase a ->
        Projection.winner ra = Some "You" /\
        Projection.winner rb = Some "Opponent") /\
       (toLowerCase w = toLowerCase b ->
        Projection.winner ra = Some "Opponent" /\
        Projection.winner rb = Some "You")).
Proof.
  intros Ha Hb N.
  unfold project, isPlayer1, label. rewrite Ha. simpl bind.
  rewrite String.eqb_refl, (proj2 (String.eqb_neq _ _) N).
  eexists. eexists.
  split; [reflexivity |]. split; [reflexivity |]. simpl.
  repeat (split; [reflexivity |]).
  intros w Hw Hne. rewrite Hw.
  destruct w as [|c w]; [contradiction |]. unfold andThen.
  split; intro E; rewrite E.
  - rewrite String.eqb_refl, (proj2 (String.eqb_neq _ _) N).
    split; reflexivity.
  - assert (N' : toLowerCase b <> toLowerCase a) by congruence.
    rewrite String.eqb_refl, (proj2 (String.eqb_neq _ _) N').
    split; reflexivity.
Qed.

Lemma participants_see_mirror_rows_witness :
  exists ra rb,
    project duelAB "0xAA" = Ok ra /\ project duelAB "0xBB" = Ok rb /\
    Projection.yourShots rb = Projection.oppShots ra /\
    Projection.winner ra = Some "You" /\ Projection.winner rb = Some "Opponent".
Proof.
  destruct (participants_see_mirror_rows duelAB "0xAA" "0xBB"
              eq_refl eq_refl)
    as [ra [rb [Pa [Pb [S1 [_ [_ [_ [_ [_ W]]]]]]]]]].
  - discriminate.
  - exists ra, rb. repeat (split; [assumption |]).
    apply (W "0xAA" eq_refl); [discriminate | reflexivity].
Defined.

(** X7: the opponent column shows the opponent's username when it is a
    non-empty string and the opponent's address otherwise, an empty username
    counting as none; so the column is empty only when the opponent has
    neither.  The opponent is the second participant when the viewpoint is
    the first one's address, and the first participant in every other
    case. *)
Theorem opponent_name_fallback (d : Duel) (player a : string) :
  address (player1 d) = Some a ->
  exists r opp,
    project d player = Ok r /\
    (toLowerCase a = toLowerCase player -> opp = player2 d) /\
    (toLowerCase a <> toLowerCase player -> opp = player1 d) /\
    (forall u, username opp = Some u -> u <> "" ->
               Projection.opponent r = Some u) /\
    (username opp = None \/ username opp = Some "" ->
     Projection.opponent r = address opp) /\
    (truthy (Projection.opponent r) = false <->
     truthy (username opp) = false /\ truthy (address opp) = false).
Proof.
  intro Ha.
  destruct (project_with_address d player a Ha) as [r [Hr [H1 [H2 _]]]].
  assert (L : forall p : Player,
    (forall u, username p = Some u -> u <> "" -> label p = Some u) /\
    (username p = None \/ username p = Some "" -> label p = address p) /\
    (truthy (label p) = false <->
     truthy (username p) = false /\ truthy (address p) = false)).
  { intro p. unfold label, orElse.
    destruct (username p) as [[|c u]|]; simpl.
    - split; [intros u E Hne; inversion E; subst; contradiction |].
      split; [reflexivity | tauto].
    - split; [intros u' E _; exact E |].
      split; [intros [E | E]; discriminate E |].
      split; [discriminate | intros [E _]; discriminate E].
    - split; [discriminate |]. split; [reflexivity | tauto]. }
  destruct (String.eqb_spec (toLowerCase a) (toLowerCase player)) as [E | N].
  - exists r, (player2 d). destruct (H1 E) as [_ [_ [_ [_ Ho]]]].
    rewrite Ho. simpl who.
    split; [exact Hr |]. split; [reflexivity |].
    split; [intro; contradiction | apply L].
  - exists r, (player1 d). destruct (H2 N) as [_ [_ [_ [_ Ho]]]].
    rewrite Ho. simpl who.
    split; [exact Hr |]. split; [intro; contradiction |].
    split; [reflexivity | apply L].
Qed.

Lemma opponent_name_fallback_witness :
  exists r,
    project (withPlayers (anon "0xAA")
               {| address := Some "0xBB"; username := Some "" |} duelAB)
            "0xaa" = Ok r /\
    Projection.opponent r = Some "0xBB".
Proof.
  destruct (opponent_name_fallback
              (withPlayers (anon "0xAA")
                 {| address := Some "0xBB"; username := Some "" |} duelAB)
              "0xaa" "0xAA" eq_refl)
    as [r [opp [Hr [Ho [_ [_ [Hf _]]]]]]].
  exists r. split; [exact Hr |].
  rewrite (Ho eq_refl) in Hf. apply Hf. right. reflexivity.
Defined.

(** ** The chart cells *)

Lemma fill_defined (idx : nat) :
  exists col, fill idx = Some col /\ In col COLORS.
Proof.
  unfold fill. simpl length.
  pose proof (Nat.mod_upper_bound idx 2) as B.
  destruct (idx mod 2) as [|[|n]]; simpl.
  - eexists. split; [reflexivity | now left].
  - eexists. split; [reflexivity | right; now left].
  - lia.
Qed.

Lemma mapIndexed_length {A B : Type} (f : A -> nat -> B) (xs : list A) :
  forall idx, length (mapIndexed f idx xs) = length xs.
Proof.
  induction xs as [|x xs IH]; intro idx; simpl; [reflexivity |].
  now rewrite IH.
Qed.

Lemma mapIndexed_nth_error {A B : Type} (f : A -> nat -> B) (xs : list A) :
  forall idx i,
    nth_error (mapIndexed f idx xs) i
    = option_map (fun x => f x (idx + i)) (nth_error xs i).
Proof.
  induction xs as [|x xs IH]; intros idx i.
  - destruct i; reflexivity.
  - destruct i as [|i]; simpl.
    + now rewrite Nat.add_0_r.
    + rewrite IH. now rewrite Nat.add_succ_r.
Qed.

(** X8: whatever the number of slices, the chart gets one cell per slice,
    the cell of slice [i] is filled with [COLORS[i % 2]], and no cell is
    left without a colour: the index never runs past the end of [COLORS],
    the colours repeating with period two. *)
Theorem cells_always_filled (data : list Slice) :
  length (cells data) = length data /\
  (forall i c, nth_error (cells data) i = Some c -> cellFill c = fill i) /\
  Forall (fun c => exists col, cellFill c = Some col /\ In col COLORS)
         (cells data) /\
  (forall idx, fill (idx + length COLORS) = fill idx).
Proof.
  unfold cells. split; [apply mapIndexed_length |].
  assert (N : forall i c,
    nth_error
      (mapIndexed
         (fun (_ : Slice) idx =>
            {| cellKey := "cell-" ++ NilEmpty.string_of_uint (Nat.to_uint idx);
               cellFill := fill idx |}) 0 data) i = Some c ->
    cellFill c = fill i).
  { intros i c H. rewrite mapIndexed_nth_error in H.
    destruct (nth_error data i); [| discriminate H].
    inversion H. reflexivity. }
  split; [exact N |]. split.
  - apply Forall_forall. intros c Hc.
    apply In_nth_error in Hc. destruct Hc as [i Hi].
    rewrite (N i c Hi). apply fill_defined.
  - intro idx. unfold fill. f_equal. simpl length.
    replace (idx + 2) with (idx + 1 * 2) by lia.
    apply Nat.Div0.mod_add.
Qed.

(** ** The page *)

Lemma tableRow_throws (d : Duel) (player : string) :
  tableRow d player = TypeError <-> ~ Complete d.
Proof.
  unfold tableRow, Complete.
  destruct (address (player1 d)) as [a|] eqn:Ha.
  - destruct (project_with_address d player a Ha) as [r [Hr [H1 [H2 _]]]].
    rewrite Hr. simpl bind. rewrite render_TypeError.
    destruct (String.eqb_spec (toLowerCase a) (toLowerCase player))
      as [E | N];
      [ destruct (H1 E) as [-> [-> [-> [-> _]]]]
      | destruct (H2 N) as [-> [-> [-> [-> _]]]] ];
      simpl;
      destruct (shotStepsP1 d), (shotStepsP2 d),
               (dodgeStepsP1 d), (dodgeStepsP2 d);
      intuition congruence.
  - rewrite (proj2 (project_TypeError d player) Ha). simpl.
    intuition congruence.
Qed.

Lemma tableRow_Complete (d : Duel) (player : string) :
  (exists tr, tableRow d player = Ok tr) <-> Complete d.
Proof.
  rewrite result_Ok, tableRow_throws. unfold Complete.
  destruct (address (player1 d)), (shotStepsP1 d), (shotStepsP2 d),
           (dodgeStepsP1 d), (dodgeStepsP2 d);
    intuition congruence.
Qed.

Lemma projectAll_Complete (ds : list Duel) (player : string) :
  (exists trs, projectAll ds player = Ok trs) <-> Forall Complete ds.
Proof.
  unfold projectAll. induction ds as [|d ds IH]; simpl.
  - split; [constructor | intros _; now exists []].
  - split.
    + intros [trs H]. apply bind_Ok in H. destruct H as [tr [Hd H]].
      apply bind_Ok in H. destruct H as [trs' [Hds _]].
      constructor.
      * apply (tableRow_Complete d player). now exists tr.
      * apply IH. now exists trs'.
    + intro H. inversion H as [|? ? Hd Hds]; subst.
      apply (tableRow_Complete d player) in Hd. destruct Hd as [tr Hd].
      apply IH in Hds. destruct Hds as [trs Hds].
      exists (tr :: trs). now rewrite Hd, Hds.
Qed.

Lemma projectAll_shape (ds : list Duel) (player : string) (trs : list Tr) :
  projectAll ds player = Ok trs ->
  length trs = length ds /\ map key trs = map id ds.
Proof.
  unfold projectAll. intro H. apply mapM_Ok in H.
  induction H as [|d tr ds trs Hd _ [IHl IHk]].
  - split; reflexivity.
  - simpl. apply tableRow_key in Hd. split; congruence.
Qed.

Lemma mapM_ext {A B : Type} (f g : A -> result B) (xs : list A) :
  (forall x, f x = g x) -> mapM f xs = mapM g xs.
Proof.
  intro E. induction xs as [|x xs IH]; simpl; [reflexivity |].
  now rewrite E, IH.
Qed.

Lemma Exists_equiv {A : Type} (P Q : A -> Prop) (l : list A) :
  (forall x, P x <-> Q x) -> Exists P l <-> Exists Q l.
Proof.
  intro E. rewrite !Exists_exists.
  split; intros [x [Hin H]]; exists x; (split; [exact Hin | now apply E]).
Qed.

Lemma HomePage_empty (st : State) :
  duels st = [] ->
  HomePage st = Ok {| inputValue := player st;
                      errorText := errorParagraph st;
                      results := None |}.
Proof.
  intro E. unfold HomePage. now rewrite E.
Qed.

Lemma HomePage_nonempty (st : State) :
  duels st <> [] ->
  HomePage st =
    (trs <- projectAll (duels st) (player st) ;;
     Ok {| inputValue := player st;
           errorText := errorParagraph st;
           results :=
             Some {| found := Z.of_nat (length (duels st));
                     pie := chartData (duels st) (player st);
                     pieCells := cells (chartData (duels st) (player st));
                     rows := trs |} |}).
Proof.
  intro N. unfold HomePage.
  destruct (duels st) as [|d ds]; [contradiction |].
  simpl Nat.ltb. cbv iota.
  destruct (projectAll (d :: ds) (player st)); reflexivity.
Qed.

(** X9: the page renders exactly when every duel it holds has the first
    participant's address and its four step sequences; one duel that lacks
    any of them makes the whole render throw, and a page with no duels
    always renders.  Whether it renders does not depend on the text in the
    input. *)
Theorem HomePage_renders_iff_complete (st : State) :
  ((exists page, HomePage st = Ok page) <-> Forall Complete (duels st)) /\
  (HomePage st = TypeError <->
   Exists (fun d => ~ Complete d) (duels st)) /\
  (forall p,
     HomePage (setPlayer p st) = TypeError <-> HomePage st = TypeError).
Proof.
  assert (R : forall s,
    (exists page, HomePage s = Ok page) <-> Forall Complete (duels s)).
  { intro s. destruct (duels s) as [|d ds] eqn:E.
    - rewrite (HomePage_empty s E).
      split; [constructor | intros _; eexists; reflexivity].
    - rewrite (HomePage_nonempty s) by (rewrite E; discriminate).
      rewrite E, <- (projectAll_Complete (d :: ds) (player s)).
      split.
      + intros [page H]. apply bind_Ok in H. destruct H as [trs [H _]].
        now exists trs.
      + intros [trs H]. rewrite H. eexists. reflexivity. }
  assert (T : forall s,
    HomePage s = TypeError <-> Exists (fun d => ~ Complete d) (duels s)).
  { intro s. destruct (duels s) as [|d ds] eqn:E.
    - rewrite (HomePage_empty s E).
      split; [discriminate | intro H; inversion H].
    - rewrite (HomePage_nonempty s) by (rewrite E; discriminate).
      rewrite E. unfold projectAll.
      rewrite <- (Exists_equiv _ _ (d :: ds)
                    (fun x => tableRow_throws x (player s))).
      rewrite <- (mapM_TypeError (fun duel => tableRow duel (player s))).
      destruct (mapM (fun duel => tableRow duel (player s)) (d :: ds));
        simpl; split; auto; discriminate. }
  split; [apply R |]. split; [apply T |].
  intro p. rewrite !T. reflexivity.
Qed.

(** X10: the parts of a rendered page agree with each other.  With no duels
    there are no results at all; otherwise the count in the heading is the
    number of rows of the table and is positive, the rows carry the ids of
    the duels in their order, the pie has the two slices "Wins" and "Losses"
    whose values are not negative and add up to the count in the heading,
    and the two cells have the two colours. *)
Theorem page_parts_agree (st : State) (page : Page) :
  HomePage st = Ok page ->
  inputValue page = player st /\
  match results page with
  | None => duels st = []
  | Some r =>
      duels st <> [] /\
      (0 < found r)%Z /\
      found r = Z.of_nat (length (rows r)) /\
      map key (rows r) = map id (duels st) /\
      map name (pie r) = ["Wins"; "Losses"] /\
      fold_right Z.add 0%Z (map value (pie r)) = found r /\
      Forall (fun s => (0 <= value s)%Z) (pie r) /\
      map cellFill (pieCells r) = [Some "#0088FE"; Some "#FF8042"]
  end.
Proof.
  intro H. destruct (duels st) as [|d ds] eqn:E.
  - rewrite (HomePage_empty st E) in H. inversion H. simpl. now split.
  - rewrite (HomePage_nonempty st) in H by (rewrite E; discriminate).
    apply bind_Ok in H. destruct H as [trs [Htrs H]].
    inversion H. simpl. clear H.
    destruct (projectAll_shape _ _ _ Htrs) as [Hl Hk].
    pose proof (wins_le_length (duels st) (player st)) as B.
    rewrite E in *. unfold chartData, losses.
    split; [reflexivity |]. split; [discriminate |].
    split; [simpl length; lia |]. split; [now rewrite Hl |].
    split; [exact Hk |]. split; [reflexivity |].
    split; [cbn [map value fold_right]; lia |]. split; [| reflexivity].
    constructor; [cbn [value]; lia |].
    constructor; [cbn [value]; lia |]. constructor.
Qed.

Lemma page_parts_agree_witness :
  exists r,
    HomePage {| player := "0xaa"; duels := [duelAB]; error := None |}
    = Ok {| inputValue := "0xaa"; errorText := None; results := Some r |} /\
    found r = Z.of_nat (length (rows r)).
Proof.
  eexists. split; [reflexivity |].
  exact (proj1 (proj2 (proj2 (proj2
    (page_parts_agree
       {| player := "0xaa"; duels := [duelAB]; error := None |} _
       eq_refl))))).
Defined.

(** X11: a search that fails changes nothing on the page but the red
    paragraph, which then shows the message: the input and the results of
    the last search that succeeded stay as they were, and a page that did
    not render still does not. *)
Theorem failed_search_changes_only_the_message
  (reply : Reply) (st : State) (m : string) :
  messageOf reply = Some m ->
  match HomePage st with
  | Ok page =>
      HomePage (searchDuels reply st)
      = Ok {| inputValue := inputValue page;
              errorText := Some m;
              results := results page |}
  | TypeError => HomePage (searchDuels reply st) = TypeError
  end.
Proof.
  intro Hm.
  assert (S : searchDuels reply st
              = {| player := player st; duels := duels st;
                   error := Some m |}).
  { destruct reply; simpl in Hm; inversion Hm; reflexivity. }
  assert (T : truthy (Some m) = true).
  { destruct reply; simpl in Hm; inversion Hm; reflexivity. }
  rewrite S. unfold HomePage, errorParagraph.
  cbn [player duels error]. rewrite T.
  destruct (0 <? length (duels st))%nat; simpl; [| reflexivity].
  destruct (projectAll (duels st) (player st)); reflexivity.
Qed.

Lemma failed_search_changes_only_the_message_witness :
  messageOf (Errors "[]") = Some "GraphQL error: []" /\
  HomePage (searchDuels (Errors "[]")
              {| player := "0xaa"; duels := [duelAB]; error := None |})
  = Ok {| inputValue := "0xaa";
          errorText := Some "GraphQL error: []";
          results :=
            Some {| found := 1;
                    pie := [ {| name := "Wins"; value := 1 |};
                             {| name := "Losses"; value := 0 |} ];
                    pieCells :=
                      [ {| cellKey := "cell-0"; cellFill := Some "#0088FE" |};
                        {| cellKey := "cell-1"; cellFill := Some "#FF8042" |} ];
                    rows :=
                      [ {| key := "d1";
                           tds := [Some "d1"; Some "0xBB"; Some "1, 2";
                                   Some "4"; Some "3"; Some "5, 6";
                                   Some "You"] |} ] |} |}.
Proof.
  split; [reflexivity |].
  exact (failed_search_changes_only_the_message
           (Errors "[]")
           {| player := "0xaa"; duels := [duelAB]; error := None |}
           "GraphQL error: []" eq_refl).
Defined.

(** X12: after a search that succeeds the page shows no message.  When the
    reply lists no duel the page shows nothing at all, neither results nor
    a message; otherwise, if it renders, it has results whose heading counts
    the duels of the reply and whose rows carry their ids. *)
Theorem successful_search_page (ds : list Duel) (st : State) :
  (ds = [] ->
   HomePage (searchDuels (Data ds) st)
   = Ok {| inputValue := player st; errorText := None; results := None |}) /\
  (forall page,
     HomePage (searchDuels (Data ds) st) = Ok page ->
     errorText page = None /\
     (results page = None <-> ds = []) /\
     (forall r, results page = Some r ->
                found r = Z.of_nat (length ds) /\
                map key (rows r) = map id ds)).
Proof.
  assert (S : searchDuels (Data ds) st
              = {| player := player st; duels := ds; error := None |})
    by reflexivity.
  rewrite S. split.
  - intros ->. reflexivity.
  - intros page H. destruct ds as [|d ds].
    + inversion H. simpl. split; [reflexivity |].
      split; [tauto | discriminate].
    + rewrite HomePage_nonempty in H by discriminate.
      apply bind_Ok in H. destruct H as [trs [Htrs H]].
      inversion H. cbn [errorText results duels player error].
      destruct (projectAll_shape _ _ _ Htrs) as [_ Hk].
      split; [reflexivity |]. split; [split; discriminate |].
      intros r Hr. inversion Hr. simpl. split; [reflexivity | exact Hk].
Qed.

(** ** Several searches *)

Lemma settle_fields (reply : Reply) (st : State) :
  player (searchDuelsSettle reply st) = player st /\
  duels (searchDuelsSettle reply st)
  = match reply with Data ds => ds | _ => duels st end /\
  error (searchDuelsSettle reply st)
  = match messageOf reply with Some m => Some m | None => error st end.
Proof.
  destruct reply; repeat split.
Qed.

Lemma search_fields (reply : Reply) (st : State) :
  player (searchDuels reply st) = player st /\
  duels (searchDuels reply st)
  = match reply with Data ds => ds | _ => duels st end /\
  error (searchDuels reply st) = messageOf reply.
Proof.
  destruct reply; repeat split.
Qed.

(** X13: after any number of searches run one after the other, the table
    holds the list of the last reply that carried data (the list held at
    the start if none did) and the message is that of the very last reply
    alone: set if it was an error, cleared if it carried data.  The text in
    the input is never touched. *)
Theorem searchAll_last_reply_decides (replies : list Reply) (st : State) :
  player (searchAll replies st) = player st /\
  duels (searchAll replies st)
  = match lastData replies with Some ds => ds | None => duels st end /\
  (forall reply,
     error (searchAll (replies ++ [reply])%list st) = messageOf reply).
Proof.
  split; [| split].
  - revert st. induction replies as [|r rs IH]; intro st; simpl.
    + reflexivity.
    + unfold searchAll in IH. rewrite IH. apply search_fields.
  - revert st. induction replies as [|r rs IH]; intro st; simpl.
    + reflexivity.
    + unfold searchAll in IH. rewrite IH.
      destruct (lastData rs); [reflexivity |].
      destruct (search_fields r st) as [_ [-> _]]. now destruct r.
  - intro reply. unfold searchAll. rewrite fold_left_app. simpl.
    apply search_fields.
Qed.

(** X14: when searches overlap and their replies come in one after the
    other, the table holds the list of the last reply that carried data and
    the red paragraph the message of the last reply that was an error: a
    reply with data that comes in after an error does not clear the
    message, and an error that comes in after data does not clear the
    table. *)
Theorem settleAll_keeps_last_of_each (replies : list Reply) (st : State) :
  player (settleAll replies st) = player st /\
  duels (settleAll replies st)
  = match lastData replies with Some ds => ds | None => duels st end /\
  error (settleAll replies st)
  = match lastMessage replies with Some m => Some m | None => error st end.
Proof.
  revert st. induction replies as [|r rs IH]; intro st.
  - repeat split.
  - destruct (IH (searchDuelsSettle r st)) as [IHp [IHd IHe]].
    destruct (settle_fields r st) as [Sp [Sd Se]].
    change (settleAll (r :: rs) st)
      with (settleAll rs (searchDuelsSettle r st)).
    rewrite IHp, IHd, IHe, Sp, Sd, Se. simpl.
    split; [reflexivity |]. split.
    + destruct (lastData rs); [reflexivity | now destruct r].
    + destruct (lastMessage rs); reflexivity.
Qed.

(** ** The letter case of the input *)

Lemma tableRow_lowered (v1 v2 : string) (d : Duel) :
  toLowerCase v1 = toLowerCase v2 -> tableRow d v1 = tableRow d v2.
Proof.
  intro E. unfold tableRow, project, isPlayer1. now rewrite E.
Qed.

Lemma chartData_lowered (v1 v2 : string) (ds : list Duel) :
  toLowerCase v1 = toLowerCase v2 -> chartData ds v1 = chartData ds v2.
Proof.
  intro E. unfold chartData, losses, wins.
  now rewrite (filter_ext _ _ (fun d => isWin_lowered v1 v2 d E)).
Qed.

(** X15: the letter case of the text in the input does not show anywhere
    but in the input itself: replacing the text by one that is equal once
    lowercased leaves the message, the heading, the pie and every row of the
    table as they were, and a page that threw still throws. *)
Theorem letter_case_of_input_is_invisible (st : State) (p : string) :
  toLowerCase p = toLowerCase (player st) ->
  match HomePage st with
  | Ok page =>
      HomePage (setPlayer p st)
      = Ok {| inputValue := p;
              errorText := errorText page;
              results := results page |}
  | TypeError => HomePage (setPlayer p st) = TypeError
  end.
Proof.
  intro E. unfold HomePage, errorParagraph, setPlayer.
  cbn [player duels error].
  rewrite (chartData_lowered p (player st) (duels st) E).
  unfold projectAll.
  rewrite (mapM_ext _ (fun duel => tableRow duel (player st)) (duels st)
             (fun d => tableRow_lowered p (player st) d E)).
  destruct (0 <? length (duels st))%nat; simpl; [| reflexivity].
  destruct (mapM (fun duel => tableRow duel (player st)) (duels st));
    reflexivity.
Qed.

Lemma letter_case_of_input_is_invisible_witness :
  toLowerCase "0XAA" = toLowerCase "0xaa" /\
  exists r,
    HomePage {| player := "0XAA"; duels := [duelAB]; error := None |}
    = Ok {| inputValue := "0XAA"; errorText := None; results := Some r |} /\
    HomePage {| player := "0xaa"; duels := [duelAB]; error := None |}
    = Ok {| inputValue := "0xaa"; errorText := None; results := Some r |}.
Proof.
  split; [reflexivity |].
  eexists. split.
  - exact (letter_case_of_input_is_invisible
             {| player := "0xaa"; duels := [duelAB]; error := None |}
             "0XAA" eq_refl).
  - reflexivity.
Defined.
